(** * ijq: interactive jq -- a shallow embedding of [main.go]

    The program is a terminal front-end that pipes a loaded document through
    the external [jq] binary every time the filter text changes.  This file
    embeds the functions of [main.go] as Rocq functions over explicit state:

    - the operating system (files, standard input, output channels) is an
      explicit record [OS] threaded through the functions that touch it;
    - the external engine, Go's [json.Unmarshal] and tview's text extraction
      are parameters gathered in the record [Externals];
    - the widgets of [createApp] and the variables its closures capture are
      the fields of the record [App];
    - goroutines and queued event-loop updates are lists of pending work in
      [App], fired by the step relation [app_step] in any order. *)

From Stdlib Require Import ZArith NArith Ascii.
From stdpp Require Import base option list strings gmap.

Open Scope Z_scope.

(** ** Strings and errors *)

(** Line feed and carriage return, which Go writes as ["\n"] and ["\r"]. *)
Definition LF : ascii := "010"%char.
Definition CR : ascii := "013"%char.
Definition nl : string := String LF "".

(** Go's [error] values as far as [main.go] tells them apart: the callback of
    [SetChangedFunc] type-asserts [*exec.ExitError] and reads its [Stderr]
    field; every other error is only ever tested against [nil] or printed. *)
Inductive error : Type :=
  | ExitError (Stderr : string)
  | OtherError (msg : string).

(** ** Options *)

Record Options : Type := mkOptions {
  compact : bool;
  nullInput : bool;
  slurp : bool;
  rawOutput : bool;
  rawInput : bool;
  monochrome : bool;
  sortKeys : bool;
  historyFile : string
}.

(** The zero value [Options{}] of Go. *)
Definition Options_zero : Options :=
  mkOptions false false false false false false false "".

Fixpoint contains (arr : list string) (elem : string) : bool :=
  match arr with
  | [] => false
  | v :: rest => if decide (elem = v) then true else contains rest elem
  end.

Definition ToSlice (o : Options) : list string :=
  let opts := [] in
  let opts := if compact o then opts ++ ["-c"] else opts in
  let opts := if nullInput o then opts ++ ["-n"] else opts in
  let opts := if slurp o then opts ++ ["-s"] else opts in
  let opts := if rawOutput o then opts ++ ["-r"] else opts in
  let opts := if rawInput o then opts ++ ["-R"] else opts in
  let opts := if negb (monochrome o) then opts ++ ["-C"] else opts in
  let opts := if sortKeys o then opts ++ ["-S"] else opts in
  opts.

(** ** The operating system seen by the program *)

(** Standard input: a character device (nothing piped), a pipe with [data]
    still to be read from it, or a pipe on which reading fails. *)
Inductive Stdin : Type :=
  | Terminal
  | Piped (data : string)
  | PipedBroken (msg : string).

(** [files] maps the path of an existing file to its bytes; a path outside
    the map does not exist.  [unwritable] holds the paths that [os.OpenFile]
    refuses to open or create for appending.  [stdout] and [stderr] collect
    what the process prints. *)
Record OS : Type := mkOS {
  files : gmap string string;
  unwritable : gset string;
  stdin : Stdin;
  stdout : string;
  stderr : string
}.

Definition set_files (w : OS) (fs : gmap string string) : OS :=
  mkOS fs (unwritable w) (stdin w) (stdout w) (stderr w).
Definition set_stdin (w : OS) (i : Stdin) : OS :=
  mkOS (files w) (unwritable w) i (stdout w) (stderr w).
Definition print_stdout (w : OS) (s : string) : OS :=
  mkOS (files w) (unwritable w) (stdin w) (stdout w +:+ s) (stderr w).
Definition print_stderr (w : OS) (s : string) : OS :=
  mkOS (files w) (unwritable w) (stdin w) (stdout w) (stderr w +:+ s).

(** The bytes behind a path opened for reading; the empty path names no
    file. *)
Definition open_read (w : OS) (path : string) : option string :=
  if decide (path = "") then None else files w !! path.

(** [ioutil.ReadFile]. *)
Definition ReadFile (w : OS) (filename : string) : string + error :=
  match open_read w filename with
  | Some bytes => inl bytes
  | None => inr (OtherError ("open " +:+ filename))
  end.

Definition stdinHasData (w : OS) : bool :=
  match stdin w with Terminal => false | _ => true end.

(** ** Document *)

Record Document : Type := mkDocument {
  input : string;
  options : Options
}.

Definition set_input (d : Document) (s : string) : Document :=
  mkDocument s (options d).

(** A method with a pointer receiver returns the updated document next to
    its [error] ([None] is [nil]). *)
Definition FromFile (w : OS) (d : Document) (filename : string)
  : Document * option error :=
  match ReadFile w filename with
  | inr err => (d, Some err)
  | inl bytes => (set_input d bytes, None)
  end.

(** [buf.ReadFrom(os.Stdin)] drains standard input, so the returned [OS]
    has nothing left on it. *)
Definition FromStdin (w : OS) (d : Document) : OS * Document * option error :=
  if negb (stdinHasData w)
  then (w, d, Some (OtherError "no data on stdin"))
  else
    match stdin w with
    | Piped data => (set_stdin w (Piped ""), set_input d data, None)
    | PipedBroken msg => (w, d, Some (OtherError msg))
    | Terminal => (w, d, Some (OtherError "no data on stdin"))
    end.

(** The [for _, file := range args] loop of [Read], which returns at the
    first file that cannot be read. *)
Fixpoint Read_files (w : OS) (d : Document) (args : list string)
  : Document * option error :=
  match args with
  | [] => (d, None)
  | file :: rest =>
      match FromFile w d file with
      | (d', Some err) => (d', Some err)
      | (d', None) => Read_files w d' rest
      end
  end.

Definition Read (w : OS) (d : Document) (args : list string)
  : OS * Document * option error :=
  if nullInput (options d) then (w, d, None)
  else if (0 <? Z.of_nat (length args)) then
    let '(d', err) := Read_files w d args in (w, d', err)
  else FromStdin w d.

(** ** The external engine *)

(** One run of [exec.Command("jq", args...)] with the document on its
    standard input: the process either cannot be run to completion
    ([StdinPipe] or [CombinedOutput] return an error that is not an
    [*exec.ExitError]), or exits with a status after writing [out] to its
    combined standard output and standard error. *)
Inductive Run : Type :=
  | SpawnError (msg : string)
  | Exited (status : Z) (out : string).

(** What [main.go] calls but does not define. *)
Record Externals : Type := mkExternals {
  (** the [jq] binary: argument list and standard input to a run *)
  jq : list string -> string -> Run;
  (** [json.Unmarshal([]byte(out), &keys)] with [keys []string]:
      [None] is a non-nil error *)
  Unmarshal : string -> option (list string);
  (** [TextView.GetText(true)] of a view holding the given written bytes *)
  GetText : string -> string
}.

Definition Filter (X : Externals) (d : Document) (filter : string)
  : string * option error :=
  let args := ToSlice (options d) ++ [filter] in
  match jq X args (input d) with
  | SpawnError msg => ("", Some (OtherError msg))
  | Exited status out =>
      if decide (status = 0) then (out, None)
      else ("", Some (ExitError out))
  end.

(** ** The history file *)

(** A file that [os.OpenFile] has opened is written and closed without
    error. *)
Definition appendToFile (w : OS) (filepath line : string) : OS * option error :=
  if decide (filepath = "") then (w, Some (OtherError "no filepath specified"))
  else if decide (filepath ∈ unwritable w)
  then (w, Some (OtherError ("open " +:+ filepath)))
  else
    let old := default "" (files w !! filepath) in
    (set_files w (<[filepath := old +:+ line +:+ nl]> (files w)), None).

(** [bufio.ScanLines] applied until the end of the data: the data is cut
    after every line feed, and a last piece without line feed is a line
    when it is not empty.  The line feeds are not part of the lines. *)
Fixpoint ScanLines (data : string) : list string :=
  match data with
  | "" => []
  | String c rest =>
      if decide (c = LF) then "" :: ScanLines rest
      else match ScanLines rest with
           | [] => [String c ""]
           | l :: ls => String c l :: ls
           end
  end.

(** [dropCR] of package [bufio]: one trailing carriage return is removed. *)
Fixpoint dropCR (l : string) : string :=
  match l with
  | "" => ""
  | String c rest =>
      match rest with
      | "" => if decide (c = CR) then "" else l
      | _ => String c (dropCR rest)
      end
  end.

(** [bufio.MaxScanTokenSize]: the scanner of [readFromFile] keeps its
    default buffer, and a line that does not fit stops it with
    [bufio.ErrTooLong]. *)
Definition MaxScanTokenSize : N := 65536.

Definition fits (l : string) : bool :=
  (N.of_nat (String.length l) <? MaxScanTokenSize)%N.

Definition readFromFile (w : OS) (filepath : string)
  : list string * option error :=
  match open_read w filepath with
  | None => ([], Some (OtherError ("open " +:+ filepath)))
  | Some data =>
      let lines := ScanLines data in
      if forallb fits lines then (dropCR <$> lines, None)
      else ([], Some (OtherError "bufio.Scanner: token too long"))
  end.

(** ** The application built by [createApp] *)

Inductive Color : Type := ColorBlack | ColorSilver | ColorMaroon.

(** The keys tview hands to the callback of [SetDoneFunc]. *)
Inductive Key : Type := KeyEnter | KeyEscape | KeyTab | KeyBacktab.

(** The widgets and the variables captured by the closures of [createApp].
    A text view is the bytes written to it since it was last cleared.
    [updates] are the closures handed to [app.QueueUpdateDraw] by their own
    goroutines and not yet run by the event loop, each known by the [text]
    it captured; [fetches] are the suggestion goroutines started and not
    yet finished, each known by its [prefix]; [startup] is the goroutine
    that filters with the original filter, until it has run. *)
Record App : Type := mkApp {
  doc : Document;
  history : list string;
  filterMap : gmap string (list string);
  filterText : string;
  fieldTextColor : Color;
  autocompleteList : list string;
  inputView : string;
  outputView : string;
  errorView : string;
  updates : list string;
  fetches : list string;
  startup : option string;
  stopped : bool
}.

Definition set_filterMap (a : App) (m : gmap string (list string)) : App :=
  mkApp (doc a) (history a) m (filterText a) (fieldTextColor a)
    (autocompleteList a) (inputView a) (outputView a) (errorView a)
    (updates a) (fetches a) (startup a) (stopped a).
Definition set_filterText (a : App) (t : string) : App :=
  mkApp (doc a) (history a) (filterMap a) t (fieldTextColor a)
    (autocompleteList a) (inputView a) (outputView a) (errorView a)
    (updates a) (fetches a) (startup a) (stopped a).
Definition SetFieldTextColor (a : App) (c : Color) : App :=
  mkApp (doc a) (history a) (filterMap a) (filterText a) c
    (autocompleteList a) (inputView a) (outputView a) (errorView a)
    (updates a) (fetches a) (startup a) (stopped a).
Definition set_autocompleteList (a : App) (l : list string) : App :=
  mkApp (doc a) (history a) (filterMap a) (filterText a) (fieldTextColor a)
    l (inputView a) (outputView a) (errorView a)
    (updates a) (fetches a) (startup a) (stopped a).
Definition set_inputView (a : App) (t : string) : App :=
  mkApp (doc a) (history a) (filterMap a) (filterText a) (fieldTextColor a)
    (autocompleteList a) t (outputView a) (errorView a)
    (updates a) (fetches a) (startup a) (stopped a).
Definition set_outputView (a : App) (t : string) : App :=
  mkApp (doc a) (history a) (filterMap a) (filterText a) (fieldTextColor a)
    (autocompleteList a) (inputView a) t (errorView a)
    (updates a) (fetches a) (startup a) (stopped a).
Definition set_errorView (a : App) (t : string) : App :=
  mkApp (doc a) (history a) (filterMap a) (filterText a) (fieldTextColor a)
    (autocompleteList a) (inputView a) (outputView a) t
    (updates a) (fetches a) (startup a) (stopped a).
Definition set_updates (a : App) (l : list string) : App :=
  mkApp (doc a) (history a) (filterMap a) (filterText a) (fieldTextColor a)
    (autocompleteList a) (inputView a) (outputView a) (errorView a)
    l (fetches a) (startup a) (stopped a).
Definition set_fetches (a : App) (l : list string) : App :=
  mkApp (doc a) (history a) (filterMap a) (filterText a) (fieldTextColor a)
    (autocompleteList a) (inputView a) (outputView a) (errorView a)
    (updates a) l (startup a) (stopped a).
Definition set_startup (a : App) (s : option string) : App :=
  mkApp (doc a) (history a) (filterMap a) (filterText a) (fieldTextColor a)
    (autocompleteList a) (inputView a) (outputView a) (errorView a)
    (updates a) (fetches a) s (stopped a).
Definition Stop (a : App) : App :=
  mkApp (doc a) (history a) (filterMap a) (filterText a) (fieldTextColor a)
    (autocompleteList a) (inputView a) (outputView a) (errorView a)
    (updates a) (fetches a) (startup a) true.

(** [createApp] up to the point where it returns: the history is read once
    (its error is ignored), the input field holds [filter] (set before the
    changed callback is installed, so no evaluation is queued for it), and
    the startup goroutine is still to run. *)
Definition createApp (w : OS) (d : Document) (filter : string) : App :=
  let history := fst (readFromFile w (historyFile (options d))) in
  mkApp d history ∅ filter ColorSilver [] "" "" "" [] [] (Some filter) false.

(** A process is either still alive in some state, or was ended by
    [log.Fatalln(err)], which prints [err] and calls [os.Exit(1)], or by a
    call of [os.Exit] with the given status. *)
Inductive Proc (S : Type) : Type :=
  | Alive (s : S)
  | Fatal (err : error)
  | Exit (status : Z).
Arguments Alive {S} s.
Arguments Fatal {S} err.
Arguments Exit {S} status.

Definition exit_status {S : Type} (p : Proc S) : option Z :=
  match p with
  | Alive _ => None
  | Fatal _ => Some 1
  | Exit status => Some status
  end.

(** [parseArgs] once [flag.Parse] has filled [options], the [-f] and [-V]
    flags and the positional arguments: the options, the initial filter
    and the input files.  The text of a filter file becomes the filter as
    it is, with every byte of the file. *)
Definition parseArgs (w : OS) (options : Options) (filterFile : string)
    (version : bool) (args : list string)
  : Proc (Options * string * list string) :=
  if version then Exit 0
  else if negb (bool_decide (filterFile = "")) then
    match ReadFile w filterFile with
    | inr err => Fatal err
    | inl contents => Alive (options, contents, args)
    end
  else
    match args with
    | arg0 :: rest =>
        if (1 <? Z.of_nat (length args))
           || (stdinHasData w || nullInput options)
        then Alive (options, arg0, rest)
        else Alive (options, ".", args)
    | [] =>
        if negb (stdinHasData w) && negb (nullInput options)
        then Exit 1
        else Alive (options, ".", args)
    end.

(** *** Evaluation on a changed filter *)

(** The callback of [SetChangedFunc]: a goroutine hands the closure to
    [app.QueueUpdateDraw]; nothing is evaluated yet. *)
Definition changedFunc (a : App) (text : string) : App :=
  set_updates a (updates a ++ [text]).

(** The closure itself, run by the event loop. *)
Definition changedUpdate (X : Externals) (a : App) (text : string) : App :=
  let a := set_errorView a "" in
  match Filter X (doc a) text with
  | (_, Some err) =>
      let a := SetFieldTextColor a ColorMaroon in
      match err with
      | ExitError Stderr => set_errorView a (errorView a +:+ Stderr)
      | OtherError _ => a
      end
  | (out, None) =>
      let a := SetFieldTextColor a ColorSilver in
      let a := set_outputView a "" in
      set_outputView a (outputView a +:+ out)
  end.

(** tview's [InputField] on an edit: the text is stored, then the changed
    callback is called with it. *)
Definition SetText (a : App) (text : string) : App :=
  changedFunc (set_filterText a text) text.

(** The event loop takes one queued update and runs it.  Each update was
    sent to the loop by a goroutine of its own, so the loop may receive them
    in any order. *)
Inductive update_step (X : Externals) : App -> App -> Prop :=
  | update_run (a : App) (i : nat) (text : string) :
      stopped a = false ->
      updates a !! i = Some text ->
      update_step X a
        (changedUpdate X (set_updates a (delete i (updates a))) text).

(** *** The goroutine that filters with the original filter *)

Definition startupFilter (X : Externals) (a : App) (filter : string)
  : Proc App :=
  match Filter X (doc a) "." with
  | (_, Some err) => Fatal err
  | (orig, None) =>
      let '(out, err) := Filter X (doc a) filter in
      let a := match err with
               | Some _ => SetFieldTextColor a ColorMaroon
               | None => a
               end in
      let a := set_inputView a (inputView a +:+ orig) in
      Alive (set_outputView a (outputView a +:+ out))
  end.

(** *** Commit *)

(** The callback of [SetDoneFunc]. *)
Definition doneFunc (X : Externals) (w : OS) (a : App) (key : Key)
  : OS * App :=
  match key with
  | KeyEnter =>
      let a := Stop a in
      let expression := filterText a in
      let output := GetText X (outputView a) in
      let w := print_stderr w (expression +:+ nl) in
      let w := print_stdout w output in
      if negb (bool_decide (expression = ""))
         && negb (contains (history a) expression)
      then (fst (appendToFile w (historyFile (options (doc a))) expression), a)
      else (w, a)
  | _ => (w, a)
  end.

(** *** Suggestions *)

(** [strings.LastIndexByte]; [None] is [-1]. *)
Fixpoint LastIndexByte (s : string) (c : ascii) : option nat :=
  match s with
  | "" => None
  | String b rest =>
      match LastIndexByte rest c with
      | Some i => Some (S i)
      | None => if decide (b = c) then Some 0%nat else None
      end
  end.

(** The callback of [SetAutocompleteFunc]: the suggestions it returns, and
    the application with the fetch goroutine it may have started. *)
Definition autocompleteFunc (a : App) (text : string) : App * list string :=
  if bool_decide (filterText a = "") && (0 <? Z.of_nat (length (history a)))
  then (a, history a)
  else
    match LastIndexByte text "." with
    | Some pos =>
        let prefix := String.substring 0 pos text in
        match filterMap a !! prefix with
        | Some entries => (a, entries)
        | None => (set_fetches a (fetches a ++ [prefix]), [])
        end
    | None => (a, [])
    end.

(** tview's [InputField.Autocomplete]: the callback is called with the
    text of the field and its result becomes the open suggestion list. *)
Definition Autocomplete (a : App) : App :=
  let '(a, entries) := autocompleteFunc a (filterText a) in
  set_autocompleteList a entries.

(** The filter text the fetch goroutine builds for a prefix. *)
Definition keysFilter (prefix : string) : string :=
  let filt := if negb (bool_decide (prefix = ""))
              then prefix +:+ "| keys" else "keys" in
  "[" +:+ filt +:+ "] | unique | first".

(** The document the fetch goroutine evaluates on: the same input text with
    [Options{monochrome: true}]. *)
Definition fetch_doc (a : App) : Document :=
  mkDocument (input (doc a))
    (mkOptions false false false false false true false "").

(** The goroutine started by the autocomplete callback for [prefix]. *)
Definition fetch (X : Externals) (a : App) (prefix : string) : App :=
  let d := fetch_doc a in
  match Filter X d (keysFilter prefix) with
  | (_, Some _) => a
  | (out, None) =>
      match Unmarshal X out with
      | None => a
      | Some keys =>
          let entries := (fun k => prefix +:+ "." +:+ k) <$> keys in
          let a := set_filterMap a (<[prefix := entries]> (filterMap a)) in
          Autocomplete a
      end
  end.

(** *** The running process *)

(** What can happen next to a running application: the user edits the
    filter, asks for completions or presses a key that ends the input; the
    startup goroutine runs; the event loop runs a queued update; a fetch
    goroutine runs to its end. *)
Inductive app_step (X : Externals) : OS * App -> Proc (OS * App) -> Prop :=
  | step_edit w a text :
      stopped a = false ->
      app_step X (w, a) (Alive (w, SetText a text))
  | step_complete w a :
      stopped a = false ->
      app_step X (w, a) (Alive (w, Autocomplete a))
  | step_done w a key :
      stopped a = false ->
      app_step X (w, a) (Alive (doneFunc X w a key))
  | step_startup w a filter :
      startup a = Some filter ->
      app_step X (w, a)
        (match startupFilter X (set_startup a None) filter with
         | Alive a' => Alive (w, a')
         | Fatal err => Fatal err
         | Exit status => Exit status
         end)
  | step_update w a a' :
      update_step X a a' ->
      app_step X (w, a) (Alive (w, a'))
  | step_fetch w a i prefix :
      stopped a = false ->
      fetches a !! i = Some prefix ->
      app_step X (w, a)
        (Alive (w, fetch X (set_fetches a (delete i (fetches a))) prefix)).

(** [main] from the parsed arguments on, up to the call of [app.Run]. *)
Definition main_start (w : OS) (o : Options) (filter : string)
    (args : list string) : Proc (OS * App) :=
  let doc := mkDocument "" o in
  match Read w doc args with
  | (_, _, Some err) => Fatal err
  | (w', doc', None) => Alive (w', createApp w' doc' filter)
  end.

(** The cache key of a filter text: the text cut at its last ['.'], as the
    autocomplete callback computes it; [None] when the text has no ['.']. *)
Definition prefix_of (text : string) : option string :=
  (fun pos => String.substring 0 pos text) <$> LastIndexByte text ".".

(** *** Runs of the program that end in a commit *)

(** One run from [createApp] to the commit: the field starts with [filter],
    the user makes the edits [edits] and presses Enter.  The result is the
    operating system the run leaves behind. *)
Definition commit_run (X : Externals) (w : OS) (d : Document)
    (filter : string) (edits : list string) : OS :=
  (doneFunc X w (foldl SetText (createApp w d filter) edits) KeyEnter).1.

(** The text in the field after the edits. *)
Definition committed (filter : string) (edits : list string) : string :=
  default filter (last edits).

(** The bytes of a history file to which [appendToFile] wrote the given
    lines one after the other. *)
Definition history_bytes (lines : list string) : string :=
  foldr (fun l rest => l +:+ nl +:+ rest) "" lines.

Fixpoint has_byte (s : string) (c : ascii) : bool :=
  match s with
  | "" => false
  | String b rest => bool_decide (b = c) || has_byte rest c
  end.

(** A filter string that occupies one line of the history file and is
    read back as it was written: no line feed in it, no carriage return at
    its end, short enough for the scanner. *)
Definition one_line (e : string) : bool :=
  negb (has_byte e LF) && bool_decide (dropCR e = e) && fits e.

(** The history file at [path] can be appended to and holds exactly the
    lines [h], each of them a [one_line] string; a file that does not exist
    yet holds no line. *)
Definition history_file (w : OS) (path : string) (h : list string) : Prop :=
  path <> "" /\ (path ∉ unwritable w) /\
  Forall (fun l => one_line l = true) h /\
  (files w !! path = Some (history_bytes h) \/
   (files w !! path = None /\ h = [])).

(** *** The whole of [main] up to [app.Run] *)

(** [main]: the arguments are parsed, the document is read, and the
    application is created; each of the first two can end the process. *)
Definition main (w : OS) (options : Options) (filterFile : string)
    (version : bool) (args : list string) : Proc (OS * App) :=
  match parseArgs w options filterFile version args with
  | Alive (options, filter, args) => main_start w options filter args
  | Fatal err => Fatal err
  | Exit status => Exit status
  end.

(** *** Running applications *)

(** A step after which the process is still alive. *)
Definition alive_step (X : Externals) (s s' : OS * App) : Prop :=
  app_step X s (Alive s').

(** The queued updates [texts] run one after the other. *)
Definition run_updates (X : Externals) (a : App) (texts : list string) : App :=
  foldl (changedUpdate X) a texts.

(** The output of an evaluation that succeeds. *)
Definition success_output (X : Externals) (d : Document) (text : string)
  : option string :=
  match Filter X d text with
  | (out, None) => Some out
  | (_, Some _) => None
  end.

(** Every list in the cache was built for its key: each candidate is the
    prefix, a ['.'] and a key. *)
Definition cache_built (m : gmap string (list string)) : Prop :=
  forall prefix entries,
    m !! prefix = Some entries ->
    Forall (fun e => exists k, e = prefix +:+ "." +:+ k) entries.

(** *** Keys captured before the widgets see them *)

(** tcell's modifier masks [ModNone] and [ModShift]. *)
Definition ModNone : Z := 0.
Definition ModShift : Z := 1.

(** The keys the callback of [SetInputCapture] tells apart; every other
    key is a [KeyOther]. *)
Inductive NavKey : Type :=
  | KeyCtrlN | KeyCtrlP | KeyUp | KeyDown | KeyLeft | KeyRight
  | KeyOther (name : string).

Record EventKey : Type := NewEventKey {
  EKey : NavKey;
  Rune : ascii;
  Modifiers : Z
}.

(** The widget that has the focus. *)
Inductive Focus : Type :=
  | OnInputView | OnOutputView | OnErrorView | OnFilterInput.

#[global] Instance Focus_eq_dec : EqDecision Focus.
Proof. solve_decision. Defined.

(** The callback of [SetInputCapture]: the focus after the call, and the
    event handed on to the focused widget ([None] is [nil]: the key is
    consumed). *)
Definition inputCapture (focus : Focus) (event : EventKey)
  : Focus * option EventKey :=
  let shift := negb (Z.land (Modifiers event) ModShift =? 0) in
  match EKey event with
  | KeyCtrlN => (focus, Some (NewEventKey KeyDown " " ModNone))
  | KeyCtrlP => (focus, Some (NewEventKey KeyUp " " ModNone))
  | KeyUp =>
      if shift && bool_decide (focus = OnFilterInput)
      then (OnInputView, None) else (focus, Some event)
  | KeyDown =>
      if shift then (OnFilterInput, None) else (focus, Some event)
  | KeyLeft =>
      if bool_decide (focus = OnOutputView)
      then (OnInputView, None) else (focus, Some event)
  | KeyRight =>
      if bool_decide (focus = OnInputView)
      then (OnOutputView, None) else (focus, Some event)
  | KeyOther _ => (focus, Some event)
  end.

(** ** A sample environment

    The document of the README-style example, [{"a":1,"b":2}], with the
    options [-c -M] and a history file.  [sample_jq] lists what [jq] prints
    for the handful of invocations used below; [missing_jq] is a system
    on which the binary is not installed. *)

Definition dq : string := String "034"%char "".

Definition sample_input : string :=
  "{" +:+ dq +:+ "a" +:+ dq +:+ ":1," +:+ dq +:+ "b" +:+ dq +:+ ":2}".

Definition sample_keys_output : string :=
  "[" +:+ nl +:+ "  " +:+ dq +:+ "a" +:+ dq +:+ "," +:+ nl
      +:+ "  " +:+ dq +:+ "b" +:+ dq +:+ nl +:+ "]" +:+ nl.

Definition sample_options : Options :=
  mkOptions true false false false false true false "/home/u/.local/share/ijq/history".

Definition sample_doc : Document := mkDocument sample_input sample_options.

Definition sample_jq (args : list string) (stdin : string) : Run :=
  if negb (bool_decide (stdin = sample_input)) then
    Exited 2 ("jq: error (at <stdin>:0): Cannot parse input" +:+ nl)
  else if decide (args = ["-c"; "."]) then Exited 0 (sample_input +:+ nl)
  else if decide (args = ["-c"; ".a"]) then Exited 0 ("1" +:+ nl)
  else if decide (args = ["-c"; ".b"]) then Exited 0 ("2" +:+ nl)
  else if decide (args = ["[keys] | unique | first"])
  then Exited 0 sample_keys_output
  else if decide (args = ["[.a| keys] | unique | first"])
  then Exited 5 ("jq: error (at <stdin>:1): number (1) has no keys" +:+ nl)
  else Exited 3 ("jq: 1 compile error" +:+ nl).

Definition sample_Unmarshal (out : string) : option (list string) :=
  if decide (out = sample_keys_output) then Some ["a"; "b"] else None.

Definition sample_X : Externals :=
  mkExternals sample_jq sample_Unmarshal (fun written => written).

Definition missing_jq (args : list string) (stdin : string) : Run :=
  SpawnError "exec: jq: executable file not found in $PATH".

Definition missing_X : Externals :=
  mkExternals missing_jq sample_Unmarshal (fun written => written).

Definition sample_OS : OS := mkOS ∅ ∅ Terminal "" "".

(** The application after startup on the sample document, before any edit. *)
Definition sample_app : App :=
  mkApp sample_doc [] ∅ "." ColorSilver [] (sample_input +:+ nl)
    (sample_input +:+ nl) "" [] [] None false.

(** A line of 65536 bytes, one more than the scanner takes. *)
Definition long_line : string := N.iter 65536 (String "a"%char) "".

(** * Properties *)

(** The sample application is the one the startup goroutine leaves behind. *)
Example sample_app_started :
  startupFilter sample_X
    (set_startup (createApp sample_OS sample_doc ".") None) "."
  = Alive sample_app.
Proof. reflexivity. Qed.

(** ** Evaluation: [Document.Filter] *)

Lemma Filter_spawn_error X d filter msg :
  jq X (ToSlice (options d) ++ [filter]) (input d) = SpawnError msg ->
  Filter X d filter = ("", Some (OtherError msg)).
Proof. intros H. unfold Filter. by rewrite H. Qed.

Lemma Filter_exited_zero X d filter out :
  jq X (ToSlice (options d) ++ [filter]) (input d) = Exited 0 out ->
  Filter X d filter = (out, None).
Proof. intros H. unfold Filter. by rewrite H. Qed.

Lemma Filter_exited_nonzero X d filter status out :
  jq X (ToSlice (options d) ++ [filter]) (input d) = Exited status out ->
  status <> 0 ->
  Filter X d filter = ("", Some (ExitError out)).
Proof.
  intros H Hs. unfold Filter. rewrite H. by destruct (decide (status = 0)).
Qed.

(** C5: when the engine exits with a non-zero status, [Filter] fails with an
    [ExitError] whose [Stderr] is exactly the combined output of the engine;
    when it exits with status 0, [Filter] succeeds with exactly that
    output. *)
Theorem Filter_exit_status X d filter status out :
  jq X (ToSlice (options d) ++ [filter]) (input d) = Exited status out ->
  (status <> 0 -> Filter X d filter = ("", Some (ExitError out))) /\
  (status = 0 -> Filter X d filter = (out, None)).
Proof.
  intros Hrun. split; intros Hs.
  - by apply (Filter_exited_nonzero X d filter status out).
  - subst status. by apply Filter_exited_zero.
Qed.

Lemma Filter_exit_status_witness :
  Filter sample_X sample_doc ".[" = ("", Some (ExitError ("jq: 1 compile error" +:+ nl)))
  /\ Filter sample_X sample_doc ".a" = ("1" +:+ nl, None).
Proof.
  split.
  - apply (Filter_exit_status sample_X sample_doc ".[" 3
             ("jq: 1 compile error" +:+ nl)); [reflexivity | lia].
  - apply (Filter_exit_status sample_X sample_doc ".a" 0 ("1" +:+ nl));
      reflexivity.
Defined.

(** ** Loading the document: [Document.Read] *)

(** C9: in null-input mode [Read] returns [nil] at once: the operating
    system is left as it was (no file is opened, standard input is not
    drained), whatever the arguments, and the document is unchanged, so the
    document built by [main] keeps its empty input text. *)
Theorem Read_nullInput (w : OS) (d : Document) (args : list string) :
  nullInput (options d) = true ->
  Read w d args = (w, d, None) /\
  (input d = "" -> input (Read w d args).1.2 = "").
Proof.
  intros Hn. unfold Read. rewrite Hn. by split.
Qed.

Lemma Read_nullInput_witness :
  let o := mkOptions false true false false false false false "" in
  let w := mkOS ∅ ∅ (Piped "[1,2]") "" "" in
  Read w (mkDocument "" o) ["missing.json"] = (w, mkDocument "" o, None).
Proof.
  intros o w.
  exact (proj1 (Read_nullInput w (mkDocument "" o) ["missing.json"] eq_refl)).
Defined.

Lemma Read_files_options w args : forall d,
  options (Read_files w d args).1 = options d.
Proof.
  induction args as [|file rest IH]; intros d; simpl; [done|].
  unfold FromFile. destruct (ReadFile w file); simpl; [|done].
  by rewrite IH.
Qed.

Lemma Read_files_last w args : forall d d',
  args <> [] ->
  Read_files w d args = (d', None) ->
  exists file, last args = Some file /\ ReadFile w file = inl (input d').
Proof.
  induction args as [|file rest IH]; intros d d' Hne Hr; [done|].
  simpl in Hr. unfold FromFile in Hr.
  destruct (ReadFile w file) as [bytes|err] eqn:Hf; [|done].
  destruct rest as [|file' rest'].
  - simpl in Hr. injection Hr as <-. exists file. by split.
  - destruct (IH (set_input d bytes) d' ltac:(done) Hr) as (f & Hl & Hrd).
    exists f. split; [|done]. by rewrite last_cons, Hl.
Qed.

(** C10: outside null-input mode, a successful [Read] of several files
    leaves the contents of the last file, and nothing of the files before
    it, as the input text of the document. *)
Theorem Read_keeps_last_file w d args w' d' :
  nullInput (options d) = false ->
  (1 < length args)%nat ->
  Read w d args = (w', d', None) ->
  exists file, last args = Some file /\ ReadFile w file = inl (input d').
Proof.
  intros Hn Hlen Hr. unfold Read in Hr. rewrite Hn in Hr.
  destruct (0 <? Z.of_nat (length args)) eqn:Hpos; [|lia].
  destruct (Read_files w d args) as [d1 e1] eqn:Hfiles.
  injection Hr as _ -> ->.
  eapply Read_files_last; [|done]. intros ->. simpl in Hlen. lia.
Qed.

Lemma Read_keeps_last_file_witness :
  let w := mkOS {[ "a.json" := "[1]"; "b.json" := "[2]" ]} ∅ Terminal "" "" in
  exists file, last ["a.json"; "b.json"] = Some file
               /\ ReadFile w file = inl "[2]".
Proof.
  intros w.
  apply (Read_keeps_last_file w (mkDocument "" Options_zero)
           ["a.json"; "b.json"] w (mkDocument "[2]" Options_zero)).
  - reflexivity.
  - simpl. lia.
  - vm_compute. reflexivity.
Defined.

Lemma main_start_nullInput w o filter args :
  nullInput o = true ->
  main_start w o filter args = Alive (w, createApp w (mkDocument "" o) filter).
Proof. intros Hn. unfold main_start, Read. simpl. by rewrite Hn. Qed.

(** ** The update run on a changed filter *)

(** Queuing an evaluation touches nothing that is displayed. *)
Lemma changedFunc_display a text :
  outputView (changedFunc a text) = outputView a /\
  errorView (changedFunc a text) = errorView a /\
  fieldTextColor (changedFunc a text) = fieldTextColor a.
Proof. done. Qed.

Lemma changedUpdate_success X a text out :
  Filter X (doc a) text = (out, None) ->
  changedUpdate X a text =
    set_outputView (SetFieldTextColor (set_errorView a "") ColorSilver) out.
Proof. intros H. unfold changedUpdate. simpl. by rewrite H. Qed.

Lemma changedUpdate_failure X a text s err :
  Filter X (doc a) text = (s, Some err) ->
  changedUpdate X a text =
    set_errorView (SetFieldTextColor a ColorMaroon)
      match err with ExitError Stderr => Stderr | OtherError _ => "" end.
Proof.
  intros H. unfold changedUpdate. simpl. rewrite H. by destruct err.
Qed.

(** C2: when the evaluation of the changed filter fails, the output view
    after the update has run is exactly the output view before it;
    triggering the evaluation did not touch it either.  The field colour
    becomes the error colour, the error view is replaced by the diagnostic
    (empty if the error carries none), and every other part of the
    application is untouched. *)
Theorem failing_filter_keeps_output X a text s err :
  Filter X (doc a) text = (s, Some err) ->
  outputView (changedFunc a text) = outputView a /\
  outputView (changedUpdate X a text) = outputView a /\
  changedUpdate X a text =
    set_errorView (SetFieldTextColor a ColorMaroon)
      match err with ExitError Stderr => Stderr | OtherError _ => "" end.
Proof.
  intros H. rewrite (changedUpdate_failure X a text s err H). done.
Qed.

Lemma failing_filter_keeps_output_witness :
  outputView (changedUpdate sample_X sample_app ".[") = sample_input +:+ nl.
Proof.
  exact (proj1 (proj2 (failing_filter_keeps_output sample_X sample_app ".[" ""
                  (ExitError ("jq: 1 compile error" +:+ nl)) eq_refl))).
Defined.

(** ** Suggestions *)

Lemma LastIndexByte_nonempty text c pos :
  LastIndexByte text c = Some pos -> text <> "".
Proof. by destruct text. Qed.

(** C8: while the filter text is empty, the completion callback returns the
    history loaded at startup, in its load order, which is the empty list
    when no history was loaded; the application is returned as it was, so
    no fetch goroutine has been started. *)
Theorem complete_on_empty_text a :
  filterText a = "" ->
  autocompleteFunc a (filterText a) = (a, history a).
Proof.
  intros H. unfold autocompleteFunc. rewrite H. simpl.
  by destruct (history a) as [|h hs] eqn:Hh.
Qed.

Lemma complete_on_empty_text_witness :
  let a := set_filterText sample_app "" in
  autocompleteFunc a "" = (a, []).
Proof.
  intros a. exact (complete_on_empty_text a eq_refl).
Defined.

(** ** An engine that cannot be started *)

Lemma startupFilter_fatal X a filter s err :
  Filter X (doc a) "." = (s, Some err) ->
  startupFilter X a filter = Fatal err.
Proof. intros H. unfold startupFilter. by rewrite H. Qed.

Lemma fetch_failure X a prefix s err :
  Filter X (fetch_doc a) (keysFilter prefix) = (s, Some err) ->
  fetch X a prefix = a.
Proof. intros H. unfold fetch. simpl. by rewrite H. Qed.

(** C3, as the code has it: when the engine cannot be started, the startup
    goroutine ends the process with exit status 1 at its first evaluation
    (the identity filter); an evaluation run for a changed filter does not
    end the process: it empties the error view, gives the field the error
    colour and changes nothing else; a suggestion fetch changes nothing. *)
Theorem spawn_failure_fatal_only_at_startup X a msg :
  (forall args stdin, jq X args stdin = SpawnError msg) ->
  (forall w filter,
      startup a = Some filter ->
      exists p, app_step X (w, a) p /\ p = Fatal (OtherError msg)
                /\ exit_status p = Some 1) /\
  (forall text,
      changedUpdate X a text
      = set_errorView (SetFieldTextColor a ColorMaroon) "") /\
  (forall prefix, fetch X a prefix = a).
Proof.
  intros Hjq. split; [|split].
  - intros w filter Hs. eexists. split; [by apply step_startup|].
    rewrite (startupFilter_fatal X _ filter "" (OtherError msg)); [done|].
    by apply Filter_spawn_error.
  - intros text.
    by rewrite (changedUpdate_failure X a text "" (OtherError msg))
      by by apply Filter_spawn_error.
  - intros prefix.
    apply (fetch_failure X a prefix "" (OtherError msg)).
    by apply Filter_spawn_error.
Qed.

Lemma spawn_failure_fatal_only_at_startup_witness :
  changedUpdate missing_X sample_app ".a"
  = set_errorView (SetFieldTextColor sample_app ColorMaroon) "".
Proof.
  exact (proj1 (proj2 (spawn_failure_fatal_only_at_startup missing_X sample_app
           "exec: jq: executable file not found in $PATH"
           (fun args stdin => eq_refl))) ".a").
Defined.

(** C3 fails as stated: on a system without the engine, the evaluation
    queued for the edit [.a] is run by the event loop, the engine cannot be
    started for it, and the process is alive afterwards; no step out of
    that state ends the process. *)
Lemma spawn_failure_in_loop_not_fatal :
  let a := changedFunc sample_app ".a" in
  jq missing_X (ToSlice (options (doc a)) ++ [".a"]) (input (doc a))
    = SpawnError "exec: jq: executable file not found in $PATH" /\
  app_step missing_X (sample_OS, a)
    (Alive (sample_OS, changedUpdate missing_X sample_app ".a")) /\
  (forall p, app_step missing_X (sample_OS, a) p -> exit_status p = None).
Proof.
  intros a. split; [done|]. split.
  - apply step_update. by apply (update_run missing_X a 0 ".a").
  - intros p Hp. inversion Hp; subst; try done.
Qed.

(** ** Order of the evaluations *)

Lemma changedUpdate_frame X a text :
  let a' := changedUpdate X a text in
  doc a' = doc a /\ updates a' = updates a /\ stopped a' = stopped a /\
  history a' = history a /\ filterMap a' = filterMap a /\
  fetches a' = fetches a.
Proof.
  unfold changedUpdate. simpl.
  destruct (Filter X (doc a) text) as [out [[e|m]|]]; done.
Qed.

(** What one step of the event loop does to two queued evaluations that
    both succeed: it runs either of them and shows its result. *)
Lemma update_step_two X a t1 t2 out1 out2 b :
  updates a = [t1; t2] ->
  Filter X (doc a) t1 = (out1, None) ->
  Filter X (doc a) t2 = (out2, None) ->
  update_step X a b ->
  (updates b = [t2] /\ outputView b = out1 /\ doc b = doc a) \/
  (updates b = [t1] /\ outputView b = out2 /\ doc b = doc a).
Proof.
  intros Hu H1 H2 Hstep. inversion Hstep as [a0 i text Hrun Hi]; subst.
  rewrite Hu in Hi. rewrite Hu.
  destruct i as [|[|i]]; simpl in Hi; [| |done]; injection Hi as <-.
  - left. rewrite (changedUpdate_success X _ t1 out1) by done. done.
  - right. rewrite (changedUpdate_success X _ t2 out2) by done. done.
Qed.

Lemma update_step_one X a t out b :
  updates a = [t] ->
  Filter X (doc a) t = (out, None) ->
  update_step X a b ->
  updates b = [] /\ outputView b = out.
Proof.
  intros Hu H1 Hstep. inversion Hstep as [a0 i text Hrun Hi]; subst.
  rewrite Hu in Hi. rewrite Hu.
  destruct i as [|i]; simpl in Hi; [|done]. injection Hi as <-.
  rewrite (changedUpdate_success X _ t out) by done. done.
Qed.

Lemma update_run_at X a i t out :
  stopped a = false ->
  updates a !! i = Some t ->
  Filter X (doc a) t = (out, None) ->
  exists b, update_step X a b /\ updates b = delete i (updates a) /\
            outputView b = out /\ doc b = doc a /\ stopped b = false.
Proof.
  intros Hrun Hi Hf. eexists. split; [by apply (update_run X a i t)|].
  rewrite (changedUpdate_success X _ t out) by done. done.
Qed.

(** C1, as the code has it: no sequence number is kept and no result is
    discarded.  Of two evaluations issued in the order [t1], [t2] that both
    succeed, the event loop runs either one first, each replaces the output
    view when it runs, and the output view after both have run is the
    result of the one that ran last: the result of [t1] whenever the
    result of [t2] was applied first. *)
Theorem last_run_update_wins X a t1 t2 out1 out2 :
  stopped a = false ->
  updates a = [] ->
  Filter X (doc a) t1 = (out1, None) ->
  Filter X (doc a) t2 = (out2, None) ->
  let a0 := changedFunc (changedFunc a t1) t2 in
  (forall b c, update_step X a0 b -> update_step X b c ->
     updates c = [] /\
     ((outputView b = out1 /\ outputView c = out2) \/
      (outputView b = out2 /\ outputView c = out1))) /\
  (exists b c, update_step X a0 b /\ update_step X b c /\
     outputView b = out2 /\ outputView c = out1).
Proof.
  intros Hrun Hu H1 H2 a0.
  assert (Hu0 : updates a0 = [t1; t2]) by (subst a0; simpl; by rewrite Hu).
  split.
  - intros b c Hb Hc.
    destruct (update_step_two X a0 t1 t2 out1 out2 b Hu0 H1 H2 Hb)
      as [(Hub & Hob & Hd)|(Hub & Hob & Hd)].
    + destruct (update_step_one X b t2 out2 c Hub) as [Huc Hoc];
        [by rewrite Hd | done |]. split; [done|]. by left.
    + destruct (update_step_one X b t1 out1 c Hub) as [Huc Hoc];
        [by rewrite Hd | done |]. split; [done|]. by right.
  - destruct (update_run_at X a0 1 t2 out2) as (b & Hb & Hub & Hob & Hd & Hsb);
      [done | by rewrite Hu0 | done |].
    rewrite Hu0 in Hub. simpl in Hub.
    destruct (update_run_at X b 0 t1 out1) as (c & Hc & _ & Hoc & _);
      [done | by rewrite Hub | by rewrite Hd |].
    by exists b, c.
Qed.

Lemma last_run_update_wins_witness :
  exists b c,
    update_step sample_X (changedFunc (changedFunc sample_app ".a") ".b") b /\
    update_step sample_X b c /\
    outputView b = "2" +:+ nl /\ outputView c = "1" +:+ nl.
Proof.
  exact (proj2 (last_run_update_wins sample_X sample_app ".a" ".b"
                  ("1" +:+ nl) ("2" +:+ nl) eq_refl eq_refl eq_refl eq_refl)).
Defined.

(** C1 fails as stated: [.a] is issued before [.b]; the event loop applies
    the result of [.b] first and the result of [.a] second; after both have
    completed the output view shows the result of [.a], the request issued
    earlier, and not the result of [.b]. *)
Lemma earlier_request_displayed_last :
  let a0 := changedFunc (changedFunc sample_app ".a") ".b" in
  exists b c,
    update_step sample_X a0 b /\ update_step sample_X b c /\
    updates c = [] /\
    outputView b = (Filter sample_X sample_doc ".b").1 /\
    outputView c = (Filter sample_X sample_doc ".a").1 /\
    outputView c <> (Filter sample_X sample_doc ".b").1.
Proof.
  intros a0.
  destruct (update_run_at sample_X a0 1 ".b" ("2" +:+ nl))
    as (b & Hb & Hub & Hob & Hd & Hsb); [done..|].
  destruct (update_run_at sample_X b 0 ".a" ("1" +:+ nl))
    as (c & Hc & Huc & Hoc & _); [done | by rewrite Hub | by rewrite Hd |].
  exists b, c. repeat split; try done.
  - by rewrite Huc, Hub.
  - rewrite Hoc. done.
Qed.

(** ** The suggestion cache *)

Lemma autocompleteFunc_cached a text prefix entries :
  filterText a = text ->
  prefix_of text = Some prefix ->
  filterMap a !! prefix = Some entries ->
  autocompleteFunc a text = (a, entries).
Proof.
  intros Ht Hp Hm. unfold prefix_of in Hp.
  destruct (LastIndexByte text ".") as [pos|] eqn:Hpos; [|done].
  injection Hp as Hp. unfold autocompleteFunc. rewrite Ht, Hpos, Hp, Hm.
  rewrite bool_decide_eq_false_2; [done|].
  by eapply LastIndexByte_nonempty.
Qed.

(** A completion request starts at most one fetch goroutine. *)
Lemma autocompleteFunc_fetches a text :
  fetches (autocompleteFunc a text).1 = fetches a \/
  exists prefix, prefix_of text = Some prefix /\
    filterMap a !! prefix = None /\
    fetches (autocompleteFunc a text).1 = fetches a ++ [prefix].
Proof.
  unfold autocompleteFunc, prefix_of.
  destruct (_ && _); [by left|].
  destruct (LastIndexByte text ".") as [pos|]; [|by left]. simpl.
  destruct (filterMap a !! _) eqn:Hm; [by left|]. right. eauto.
Qed.

(** On a prefix that is not in the cache every request starts a fetch of
    its own: two requests made before the first fetch has stored its result
    leave two fetches running. *)
Lemma autocompleteFunc_miss_twice a text prefix :
  filterText a = text ->
  prefix_of text = Some prefix ->
  filterMap a !! prefix = None ->
  let r1 := autocompleteFunc a text in
  let r2 := autocompleteFunc r1.1 text in
  r1.2 = [] /\ r2.2 = [] /\ fetches r2.1 = fetches a ++ [prefix; prefix].
Proof.
  intros Ht Hp Hm. unfold prefix_of in Hp.
  destruct (LastIndexByte text ".") as [pos|] eqn:Hpos; [|done].
  injection Hp as Hp. unfold autocompleteFunc. simpl.
  rewrite Ht, Hpos, Hp, Hm. simpl.
  rewrite bool_decide_eq_false_2 by by eapply LastIndexByte_nonempty.
  simpl. rewrite Ht, Hm. simpl.
  rewrite bool_decide_eq_false_2 by by eapply LastIndexByte_nonempty.
  simpl. by rewrite <- app_assoc.
Qed.



(** A suggestion fetch changes the cache only by its own entry. *)
Lemma Autocomplete_filterMap a : filterMap (Autocomplete a) = filterMap a.
Proof.
  unfold Autocomplete, autocompleteFunc.
  destruct (_ && _); [done|].
  destruct (LastIndexByte _ _); [|done]. simpl.
  by destruct (filterMap a !! _).
Qed.


Lemma fetch_success X a prefix out keys :
  Filter X (fetch_doc a) (keysFilter prefix) = (out, None) ->
  Unmarshal X out = Some keys ->
  filterMap (fetch X a prefix)
  = <[prefix := (fun k => prefix +:+ "." +:+ k) <$> keys]> (filterMap a).
Proof.
  intros H Hu. unfold fetch. simpl. rewrite H, Hu.
  by rewrite Autocomplete_filterMap.
Qed.



(** Once a fetch has stored its list, a request for a text with that prefix
    is served from the cache. *)
Lemma request_after_fetch X a text prefix out keys :
  prefix_of text = Some prefix ->
  Filter X (fetch_doc a) (keysFilter prefix) = (out, None) ->
  Unmarshal X out = Some keys ->
  let a1 := set_filterText (fetch X a prefix) text in
  autocompleteFunc a1 text = (a1, (fun k => prefix +:+ "." +:+ k) <$> keys).
Proof.
  intros Hp Hf Hu a1. apply (autocompleteFunc_cached a1 text prefix); try done.
  subst a1. cbn [filterMap set_filterText].
  rewrite (fetch_success X a prefix out keys Hf Hu).
  apply lookup_insert_eq.
Qed.


(** ** The history file *)

Lemma string_app_cons c s t : String c s +:+ t = String c (s +:+ t).
Proof. reflexivity. Qed.

Lemma string_app_nil_r s : s +:+ "" = s.
Proof. induction s as [|c s IH]; [done|]. by rewrite string_app_cons, IH. Qed.

Lemma string_app_assoc s t u : (s +:+ t) +:+ u = s +:+ t +:+ u.
Proof.
  induction s as [|c s IH]; [done|]. by rewrite !string_app_cons, IH.
Qed.

Lemma contains_elem_of arr elem : contains arr elem = true <-> elem ∈ arr.
Proof.
  induction arr as [|v rest IH]; simpl.
  - split; [done | by intros ?%elem_of_nil].
  - destruct (decide (elem = v)) as [->|Hne].
    + split; [intros _; apply list_elem_of_here | done].
    + rewrite IH. split; [apply list_elem_of_further|].
      intros [?|?]%elem_of_cons; done.
Qed.

Lemma ScanLines_line l rest :
  has_byte l LF = false ->
  ScanLines (l +:+ nl +:+ rest) = l :: ScanLines rest.
Proof.
  induction l as [|c l IH]; intros Hl; [done|].
  simpl in Hl. apply orb_false_iff in Hl as [Hc Hl].
  apply bool_decide_eq_false in Hc.
  rewrite string_app_cons. simpl.
  destruct (decide (c = LF)); [done|]. by rewrite IH.
Qed.

Lemma one_line_parts e :
  one_line e = true ->
  has_byte e LF = false /\ dropCR e = e /\ fits e = true.
Proof.
  unfold one_line. intros H.
  apply andb_true_iff in H as [H Hf]. apply andb_true_iff in H as [Hb Hc].
  apply negb_true_iff in Hb. by apply bool_decide_eq_true in Hc.
Qed.

(** Scanning the bytes written for a list of lines gives the lines back. *)
Lemma ScanLines_history_bytes h :
  Forall (fun l => one_line l = true) h ->
  ScanLines (history_bytes h) = h /\
  forallb fits h = true /\ dropCR <$> h = h.
Proof.
  induction 1 as [|l h Hl Hh (IH1 & IH2 & IH3)]; [done|].
  destruct (one_line_parts l Hl) as (Hb & Hc & Hf).
  cbn [history_bytes foldr forallb]. fold (history_bytes h).
  rewrite ScanLines_line by done.
  rewrite IH1, IH2, Hf. split; [done|]. split; [done|].
  rewrite fmap_cons. by rewrite Hc, IH3.
Qed.

Lemma history_bytes_snoc h e :
  history_bytes (h ++ [e]) = history_bytes h +:+ e +:+ nl.
Proof.
  induction h as [|l h IH]; simpl.
  - by rewrite string_app_nil_r.
  - by rewrite IH, !string_app_assoc.
Qed.

Lemma readFromFile_history w path h :
  history_file w path h -> (readFromFile w path).1 = h.
Proof.
  intros (Hp & _ & Hh & [Hf|[Hf ->]]); unfold readFromFile, open_read;
    destruct (decide (path = "")) as [|_]; try done; rewrite Hf; [|done].
  destruct (ScanLines_history_bytes h Hh) as (-> & -> & ->). done.
Qed.


Lemma appendToFile_history w path h e :
  history_file w path h -> one_line e = true ->
  history_file (appendToFile w path e).1 path (h ++ [e]).
Proof.
  intros (Hp & Hw & Hh & Hf) He. unfold appendToFile.
  destruct (decide (path = "")) as [|_]; [done|].
  destruct (decide (path ∈ unwritable w)) as [|_]; [done|]. simpl.
  split; [done|]. split; [done|]. split.
  - apply Forall_app. split; [done|]. by apply Forall_singleton.
  - left. cbn [files set_files]. rewrite lookup_insert_eq. f_equal.
    rewrite history_bytes_snoc.
    destruct Hf as [-> | [-> ->]]; done.
Qed.

Lemma foldl_SetText a edits :
  let a' := foldl SetText a edits in
  filterText a' = default (filterText a) (last edits) /\
  history a' = history a /\ doc a' = doc a.
Proof.
  revert a. induction edits as [|t edits IH]; intros a; [done|].
  simpl. destruct (IH (SetText a t)) as (H1 & H2 & H3).
  rewrite H1, H2, H3. split; [|done].
  rewrite last_cons. by destruct (last edits).
Qed.






(** ** What the running application never changes *)

Lemma Autocomplete_frame a :
  history (Autocomplete a) = history a /\ doc (Autocomplete a) = doc a.
Proof.
  unfold Autocomplete, autocompleteFunc.
  destruct (_ && _); [done|].
  destruct (LastIndexByte _ _); [|done]. simpl.
  by destruct (filterMap a !! _).
Qed.

Lemma fetch_frame X a prefix :
  history (fetch X a prefix) = history a /\ doc (fetch X a prefix) = doc a.
Proof.
  unfold fetch. simpl.
  destruct (Filter X _ _) as [out [err|]]; [done|].
  destruct (Unmarshal X out); [|done].
  by destruct (Autocomplete_frame
                 (set_filterMap a (<[prefix:=(fun k => prefix +:+ "." +:+ k) <$> l]>
                                     (filterMap a)))) as [-> ->].
Qed.

(** The history list and the document of a running application are those
    [createApp] gave it: no step replaces them. *)
Lemma app_step_frame X w a w' a' :
  app_step X (w, a) (Alive (w', a')) ->
  history a' = history a /\ doc a' = doc a.
Proof.
  inversion 1 as [ | | ? ? key | ? ? filter Hs Heq | ? ? ? Hu | ]; subst;
    try done.
  - by apply Autocomplete_frame.
  - unfold doneFunc in *. destruct key; simplify_eq; try done.
    destruct (_ && _); by simplify_eq.
  - unfold startupFilter in *.
    destruct (Filter X (doc (set_startup a None)) ".") as [orig [err|]];
      [done|].
    destruct (Filter X (doc (set_startup a None)) filter) as [out [err|]];
      by simplify_eq.
  - inversion Hu; subst.
    by destruct (changedUpdate_frame X
                   (set_updates a (delete i (updates a))) text)
      as (-> & _ & _ & -> & _).
  - exact (fetch_frame X (set_fetches _ _) _).
Qed.

(** The history list of a new application holds the lines of the history
    file in the order of the file. *)
Lemma createApp_history w d filter h :
  history_file w (historyFile (options d)) h ->
  history (createApp w d filter) = h.
Proof. intros Hh. by apply readFromFile_history. Qed.

(** * Further properties of the code *)

(** ** Options and arguments *)

(** X1: [contains] is membership in the slice. *)
Theorem contains_iff_elem (arr : list string) (elem : string) :
  contains arr elem = true <-> elem ∈ arr.
Proof. apply contains_elem_of. Qed.

(** X2: each flag of the engine is passed exactly when its option is set,
    the colour flag [-C] exactly when [monochrome] is not set; the flags
    come in the fixed order [-c -n -s -r -R -C -S], none of them twice, and
    the history path never becomes an argument. *)
Theorem ToSlice_flags (o : Options) :
  bool_decide ("-c" ∈ ToSlice o) = compact o /\
  bool_decide ("-n" ∈ ToSlice o) = nullInput o /\
  bool_decide ("-s" ∈ ToSlice o) = slurp o /\
  bool_decide ("-r" ∈ ToSlice o) = rawOutput o /\
  bool_decide ("-R" ∈ ToSlice o) = rawInput o /\
  bool_decide ("-C" ∈ ToSlice o) = negb (monochrome o) /\
  bool_decide ("-S" ∈ ToSlice o) = sortKeys o /\
  ToSlice o `sublist_of` ["-c"; "-n"; "-s"; "-r"; "-R"; "-C"; "-S"].
Proof.
  destruct o as [[] [] [] [] [] [] [] h];
    repeat split; try reflexivity; cbn;
    repeat first [apply sublist_nil | apply sublist_skip | apply sublist_cons].
Qed.

(** ** Reading the document *)

Lemma Read_files_error_iff w args : forall d,
  (Read_files w d args).2 = None <->
  Forall (fun file => is_Some (open_read w file)) args.
Proof.
  induction args as [|file rest IH]; intros d; simpl.
  - split; [by constructor | done].
  - unfold FromFile, ReadFile.
    destruct (open_read w file) as [bytes|] eqn:Ho; simpl.
    + rewrite IH. split.
      * intros H. constructor; [by eexists | done].
      * by intros [_ H]%Forall_cons.
    + split; [done|]. intros [[x Hx] _]%Forall_cons. congruence.
Qed.

(** X3: outside null-input mode, [Read] of a non-empty list of files
    succeeds exactly when every file in the list can be read. *)
Theorem Read_succeeds_iff_readable w d args :
  nullInput (options d) = false ->
  args <> [] ->
  ((Read w d args).2 = None <->
   Forall (fun file => is_Some (open_read w file)) args).
Proof.
  intros Hn Hne. unfold Read. rewrite Hn.
  destruct args as [|file rest]; [done|].
  assert (Hlen : (0 <? Z.of_nat (length (file :: rest))) = true)
    by (apply Z.ltb_lt; simpl; lia).
  rewrite Hlen.
  rewrite <- (Read_files_error_iff w (file :: rest) d).
  by destruct (Read_files w d (file :: rest)).
Qed.

Lemma Read_succeeds_iff_readable_witness :
  let w := mkOS {[ "a.json" := "[1]" ]} ∅ Terminal "" "" in
  (Read w (mkDocument "" Options_zero) ["a.json"; "b.json"]).2 = None <->
  Forall (fun file => is_Some (open_read w file)) ["a.json"; "b.json"].
Proof.
  intros w.
  exact (Read_succeeds_iff_readable w (mkDocument "" Options_zero)
           ["a.json"; "b.json"] eq_refl ltac:(done)).
Defined.

(** X4: [Read] keeps the options of the document and writes nothing: the
    files, the output channels and the set of unwritable paths are the
    same afterwards; only standard input can have been consumed. *)
Theorem Read_writes_nothing w d args :
  let r := Read w d args in
  options r.1.2 = options d /\
  files r.1.1 = files w /\ unwritable r.1.1 = unwritable w /\
  stdout r.1.1 = stdout w /\ stderr r.1.1 = stderr w.
Proof.
  unfold Read. destruct (nullInput (options d)); [done|].
  destruct (0 <? Z.of_nat (length args)).
  - pose proof (Read_files_options w args d) as Ho.
    by destruct (Read_files w d args).
  - unfold FromStdin. destruct (negb (stdinHasData w)); [done|].
    by destruct (stdin w).
Qed.

(** ** Arguments and startup *)

(** X5: without a filter file, [parseArgs] hands on the options unchanged
    and loses no positional argument: either the first one became the
    filter and the others are the input files, or the filter is [.] and
    all of them are input files.  And it only returns when the document
    has a source: null-input mode, at least one input file, or data piped
    to standard input. *)
Theorem parseArgs_keeps_arguments w o version args o' filter args' :
  parseArgs w o "" version args = Alive (o', filter, args') ->
  o' = o /\
  (filter :: args' = args \/ (filter = "." /\ args' = args)) /\
  (nullInput o = true \/ args' <> [] \/ stdinHasData w = true).
Proof.
  unfold parseArgs. destruct version; [done|]. simpl.
  destruct args as [|arg0 rest].
  - destruct (stdinHasData w), (nullInput o); simpl; intros [= <- <- <-];
      auto.
  - destruct ((1 <? Z.of_nat (length (arg0 :: rest)))
              || (stdinHasData w || nullInput o)) eqn:Hc;
      intros [= <- <- <-]; (split; [done|]); (split; [auto|]).
    + apply orb_true_iff in Hc as [Hc|Hc].
      * apply Z.ltb_lt in Hc. destruct rest; [simpl in Hc; lia|].
        right; left; done.
      * apply orb_true_iff in Hc as [Hc|Hc]; auto.
    + right; left; done.
Qed.

Lemma parseArgs_keeps_arguments_witness :
  let w := mkOS ∅ ∅ (Piped "[1,2]") "" "" in
  sample_options = sample_options /\
  (".[0]" :: [] = [".[0]"] \/ (".[0]" = "." /\ [] = [".[0]"])) /\
  (nullInput sample_options = true \/ @nil string <> [] \/
   stdinHasData w = true).
Proof.
  intros w.
  exact (parseArgs_keeps_arguments w sample_options false [".[0]"]
           sample_options ".[0]" [] eq_refl).
Defined.

(** X6: with nothing piped, no null-input mode and no positional argument,
    [main] ends with exit status 1 after the usage text when no filter file
    is given; with a readable filter file the usage exit is skipped and the
    process is ended by the failure of [Read], which finds no data on
    standard input. *)
Theorem main_without_input w o filterFile contents :
  stdin w = Terminal ->
  nullInput o = false ->
  open_read w filterFile = Some contents ->
  main w o "" false [] = Exit 1 /\
  main w o filterFile false [] = Fatal (OtherError "no data on stdin").
Proof.
  intros Hs Hn Hf. unfold main, parseArgs, stdinHasData. rewrite Hs, Hn.
  split; [done|]. simpl.
  assert (filterFile <> "") as Hne.
  { intros ->. unfold open_read in Hf. done. }
  rewrite bool_decide_eq_false_2 by done. simpl.
  unfold ReadFile. rewrite Hf.
  unfold main_start, Read. simpl. rewrite Hn. simpl.
  unfold FromStdin, stdinHasData. simpl. by rewrite Hs.
Qed.

Lemma main_without_input_witness :
  let w := mkOS {[ "filter.jq" := ".a" ]} ∅ Terminal "" "" in
  main w sample_options "" false [] = Exit 1 /\
  main w sample_options "filter.jq" false []
  = Fatal (OtherError "no data on stdin").
Proof.
  intros w.
  exact (main_without_input w sample_options "filter.jq" ".a"
           eq_refl eq_refl eq_refl).
Defined.

(** X7: [main] creates the application only around a document that [Read]
    has loaded without error; an input file that cannot be read ends the
    process with exit status 1 before anything is created. *)
Theorem main_needs_readable_files w o filter file files' :
  nullInput o = false ->
  ~ Forall (fun f => is_Some (open_read w f)) (file :: files') ->
  exists err, main w o "" false (filter :: file :: files') = Fatal err
              /\ exit_status (main w o "" false (filter :: file :: files'))
                 = Some 1.
Proof.
  intros Hn Hbad. unfold main, parseArgs. cbn [negb bool_decide decide_rel].
  rewrite bool_decide_eq_true_2 by done. cbn [negb].
  assert (Hlen : (1 <? Z.of_nat (length (filter :: file :: files'))) = true)
    by (apply Z.ltb_lt; simpl; lia).
  rewrite Hlen. cbn [orb]. unfold main_start.
  pose proof (Read_files_error_iff w (file :: files') (mkDocument "" o)) as Hiff.
  unfold Read. cbn [options]. rewrite Hn.
  assert (Hpos : (0 <? Z.of_nat (length (file :: files'))) = true)
    by (apply Z.ltb_lt; simpl; lia).
  rewrite Hpos.
  destruct (Read_files w (mkDocument "" o) (file :: files')) as [d' [err|]].
  - by exists err.
  - exfalso. apply Hbad, Hiff. done.
Qed.

Lemma main_needs_readable_files_witness :
  exists err, main sample_OS sample_options "" false [".a"; "missing.json"]
              = Fatal err
              /\ exit_status
                   (main sample_OS sample_options "" false
                      [".a"; "missing.json"]) = Some 1.
Proof.
  apply (main_needs_readable_files sample_OS sample_options ".a"
           "missing.json" [] eq_refl).
  intros [[x Hx] _]%Forall_cons. vm_compute in Hx. discriminate.
Defined.

(** ** Lines of the history file *)







Lemma readFromFile_present w path h :
  path <> "" ->
  files w !! path = Some (history_bytes h) ->
  Forall (fun l => one_line l = true) h ->
  readFromFile w path = (h, None).
Proof.
  intros Hp Hf Hh. unfold readFromFile, open_read.
  destruct (decide (path = "")); [done|]. rewrite Hf.
  by destruct (ScanLines_history_bytes h Hh) as (-> & -> & ->).
Qed.

(** X10: a one-line string appended to a history file is read back as its
    last line, after the lines that were there, and the read succeeds. *)
Theorem append_then_read w path h e :
  history_file w path h ->
  one_line e = true ->
  (appendToFile w path e).2 = None /\
  readFromFile (appendToFile w path e).1 path = (h ++ [e], None).
Proof.
  intros Hh He.
  destruct (appendToFile_history w path h e Hh He) as (Hp & _ & Hl & Hf).
  split.
  - destruct Hh as (_ & Hw & _). unfold appendToFile.
    destruct (decide (path = "")); [done|].
    by destruct (decide (path ∈ unwritable w)).
  - destruct Hf as [Hf|[_ Hnil]]; [|by destruct h].
    by apply readFromFile_present.
Qed.

Lemma append_then_read_witness :
  readFromFile (appendToFile sample_OS "/tmp/h" ".a").1 "/tmp/h"
  = ([".a"], None).
Proof.
  refine (proj2 (append_then_read sample_OS "/tmp/h" [] ".a" _ eq_refl)).
  split; [done|]. split; [apply not_elem_of_empty|].
  split; [apply Forall_nil_2|]. by right.
Defined.

(** X11: with the history switched off (an empty history path) or a history
    file that cannot be opened for appending, a run that ends in a commit
    leaves every file as it was; with an empty path the application also
    starts with an empty history. *)
Theorem commit_without_history X w d filter edits :
  historyFile (options d) = "" \/ historyFile (options d) ∈ unwritable w ->
  files (commit_run X w d filter edits) = files w /\
  (historyFile (options d) = "" -> history (createApp w d filter) = []).
Proof.
  intros Hoff. split.
  - unfold commit_run, doneFunc.
    destruct (foldl_SetText (createApp w d filter) edits) as (_ & _ & Hd).
    cbn [Stop doc]. rewrite Hd. cbn [createApp doc].
    destruct (_ && _); [|done].
    unfold appendToFile.
    destruct (decide (historyFile (options d) = "")); [done|].
    destruct Hoff as [?|Hu]; [done|].
    by rewrite decide_True.
  - intros He. unfold createApp, readFromFile, open_read. cbn [history].
    by rewrite He.
Qed.

Lemma commit_without_history_witness :
  let d := mkDocument sample_input Options_zero in
  files (commit_run sample_X sample_OS d ".a" []) = files sample_OS /\
  (historyFile (options d) = "" -> history (createApp sample_OS d ".a") = []).
Proof.
  intros d.
  exact (commit_without_history sample_X sample_OS d ".a" [] (or_introl eq_refl)).
Defined.

(** X12: Enter stops the application and prints the filter text and a line
    feed to standard error and the text of the output view to standard
    output, whether or not the filter goes to the history; nothing else of
    the application changes, and standard input is not touched.  Any
    other key changes nothing at all. *)
Theorem doneFunc_prints X w a key :
  let r := doneFunc X w a key in
  match key with
  | KeyEnter =>
      r.2 = Stop a /\
      stderr r.1 = stderr w +:+ (filterText a +:+ nl) /\
      stdout r.1 = stdout w +:+ GetText X (outputView a) /\
      stdin r.1 = stdin w
  | _ => r = (w, a)
  end.
Proof.
  unfold doneFunc. destruct key; try done. cbn [Stop filterText outputView].
  destruct (_ && _); [|done].
  unfold appendToFile.
  destruct (decide (_ = "")); [done|].
  by destruct (decide (_ ∈ _)).
Qed.



(** ** The startup goroutine *)

Lemma Filter_error_no_output X d filter s err :
  Filter X d filter = (s, Some err) -> s = "".
Proof.
  unfold Filter. destruct (jq X _ _) as [msg|status out]; [congruence|].
  destruct (decide (status = 0)); congruence.
Qed.

(** X14: at startup every failure of the identity filter ends the process
    with exit status 1, also when the engine ran and exited with a
    non-zero status (a document the engine cannot parse, for one). *)
Theorem startup_identity_failure_fatal X w a filter status out :
  startup a = Some filter ->
  jq X (ToSlice (options (doc a)) ++ ["."]) (input (doc a))
    = Exited status out ->
  status <> 0 ->
  app_step X (w, a) (Fatal (ExitError out)) /\
  exit_status (@Fatal (OS * App) (ExitError out)) = Some 1.
Proof.
  intros Hs Hrun Hne. split; [|done].
  pose proof (step_startup X w a filter Hs) as Hstep.
  rewrite (startupFilter_fatal X _ filter "" (ExitError out)) in Hstep;
    [done|].
  by apply (Filter_exited_nonzero X _ "." status out).
Qed.

Lemma startup_identity_failure_fatal_witness :
  let a := createApp sample_OS (mkDocument "{" sample_options) "." in
  app_step sample_X (sample_OS, a)
    (Fatal (ExitError ("jq: error (at <stdin>:0): Cannot parse input" +:+ nl))).
Proof.
  intros a.
  exact (proj1 (startup_identity_failure_fatal sample_X sample_OS a "." 2 _
                  eq_refl eq_refl ltac:(done))).
Defined.

(** X15: when the identity filter succeeds, the startup goroutine keeps
    the process alive and appends the unfiltered document to the input
    view.  If the initial filter succeeds too, its output is appended to
    the output view and the field colour is kept; if it fails, the output
    view is left as it is and the field gets the error colour, while the
    error view stays as it was: the diagnostic is not shown. *)
Theorem startup_shows_document X a filter orig :
  Filter X (doc a) "." = (orig, None) ->
  (forall out, Filter X (doc a) filter = (out, None) ->
     startupFilter X a filter
     = Alive (set_outputView (set_inputView a (inputView a +:+ orig))
                (outputView a +:+ out))) /\
  (forall s err, Filter X (doc a) filter = (s, Some err) ->
     startupFilter X a filter
     = Alive (set_inputView (SetFieldTextColor a ColorMaroon)
                (inputView a +:+ orig))).
Proof.
  intros Ho. unfold startupFilter. rewrite Ho. split.
  - intros out ->. done.
  - intros s err Hf. rewrite Hf.
    rewrite (Filter_error_no_output X _ _ _ _ Hf).
    cbn [set_inputView SetFieldTextColor set_outputView outputView inputView
         doc history filterMap filterText fieldTextColor autocompleteList
         errorView updates fetches startup stopped].
    by rewrite string_app_nil_r.
Qed.

Lemma startup_shows_document_witness :
  let a := set_startup (createApp sample_OS sample_doc ".[") None in
  startupFilter sample_X a ".["
  = Alive (set_inputView (SetFieldTextColor a ColorMaroon)
             ("" +:+ (sample_input +:+ nl))).
Proof.
  intros a.
  exact (proj2 (startup_shows_document sample_X a ".[" (sample_input +:+ nl)
                  eq_refl) "" (ExitError ("jq: 1 compile error" +:+ nl))
           eq_refl).
Defined.

(** ** Queued updates *)

Lemma changedUpdate_set_updates X a l text :
  changedUpdate X (set_updates a l) text
  = set_updates (changedUpdate X a text) l.
Proof.
  unfold changedUpdate. cbn [doc set_errorView set_updates].
  destruct (Filter X (doc a) text) as [out [[e|m]|]]; reflexivity.
Qed.

Lemma run_updates_doc X texts : forall a,
  doc (run_updates X a texts) = doc a.
Proof.
  induction texts as [|t ts IH]; intros a; [done|].
  unfold run_updates in *. simpl. rewrite IH.
  apply (changedUpdate_frame X a t).
Qed.

Lemma run_updates_last_success X texts : forall a,
  outputView (run_updates X a texts)
  = default (outputView a) (last (omap (success_output X (doc a)) texts)).
Proof.
  induction texts as [|t ts IH]; intros a; [done|].
  change (run_updates X a (t :: ts))
    with (run_updates X (changedUpdate X a t) ts).
  rewrite IH, (proj1 (changedUpdate_frame X a t)).
  change (omap (success_output X (doc a)) (t :: ts))
    with (match success_output X (doc a) t with
          | Some out => out :: omap (success_output X (doc a)) ts
          | None => omap (success_output X (doc a)) ts
          end).
  unfold success_output at 2.
  destruct (Filter X (doc a) t) as [out [err|]] eqn:Hf.
  - by rewrite (changedUpdate_failure X a t out err Hf).
  - rewrite (changedUpdate_success X a t out Hf). rewrite last_cons.
    by destruct (last _).
Qed.

(** X16: running the same update a second time changes nothing. *)
Theorem changedUpdate_idempotent X a text :
  changedUpdate X (changedUpdate X a text) text = changedUpdate X a text.
Proof.
  pose proof (proj1 (changedUpdate_frame X a text)) as Hd.
  destruct (Filter X (doc a) text) as [out [err|]] eqn:Hf.
  - rewrite (changedUpdate_failure X (changedUpdate X a text) text out err)
      by by rewrite Hd.
    by rewrite (changedUpdate_failure X a text out err Hf).
  - rewrite (changedUpdate_success X (changedUpdate X a text) text out)
      by by rewrite Hd.
    by rewrite (changedUpdate_success X a text out Hf).
Qed.

(** X17: after a sequence of updates has run, the output view shows the
    output of the last update in the sequence whose evaluation succeeded,
    or what it showed before if none did; the field colour and the error
    view tell only about the update that ran last, which need not be the
    one whose output is shown. *)
Theorem run_updates_display X a texts text :
  let b := run_updates X a (texts ++ [text]) in
  outputView b
  = default (outputView a)
      (last (omap (success_output X (doc a)) (texts ++ [text]))) /\
  fieldTextColor b
  = match success_output X (doc a) text with
    | Some _ => ColorSilver
    | None => ColorMaroon
    end /\
  errorView b
  = match (Filter X (doc a) text).2 with
    | Some (ExitError Stderr) => Stderr
    | _ => ""
    end.
Proof.
  intros b. split; [apply run_updates_last_success|].
  subst b. unfold run_updates. rewrite foldl_app. simpl.
  fold (run_updates X a texts).
  pose proof (run_updates_doc X texts a) as Hd.
  unfold success_output. rewrite <- Hd.
  destruct (Filter X (doc (run_updates X a texts)) text) as [out [err|]] eqn:Hf.
  - rewrite (changedUpdate_failure X _ text out err Hf). by destruct err.
  - by rewrite (changedUpdate_success X _ text out Hf).
Qed.

(** X18: however the event loop picks the queued updates, once none is
    left it has run each of them exactly once: the application is the one
    obtained by running them one after the other in some order, and its
    output view shows the last successful output in that order. *)
Theorem update_steps_run_each_once X a b :
  rtc (update_step X) a b ->
  updates b = [] ->
  exists order,
    order ≡ₚ updates a /\
    b = run_updates X (set_updates a []) order /\
    outputView b
    = default (outputView a) (last (omap (success_output X (doc a)) order)).
Proof.
  induction 1 as [a|a a1 b Hstep Hrest IH]; intros Hb.
  - exists []. rewrite Hb. split; [done|]. split; [|done].
    destruct a; simpl in *; by subst.
  - destruct (IH Hb) as (order & Hperm & Heq & Hout).
    inversion Hstep as [a0 i text Hrun Hi]; subst a0 a1.
    exists (text :: order). split; [|split].
    + rewrite Hperm.
      rewrite (proj1 (proj2 (changedUpdate_frame X _ text))).
      cbn [updates set_updates].
      symmetry. by apply delete_Permutation.
    + rewrite Heq. unfold run_updates. simpl. f_equal.
      by rewrite !changedUpdate_set_updates.
    + rewrite Heq. rewrite run_updates_last_success.
      rewrite changedUpdate_set_updates.
      change (default (outputView (changedUpdate X a text))
                (last (omap (success_output X (doc (changedUpdate X a text)))
                         order))
              = default (outputView a)
                  (last (omap (success_output X (doc a)) (text :: order)))).
      exact (eq_sym (eq_trans
               (eq_sym (run_updates_last_success X (text :: order) a))
               (run_updates_last_success X order (changedUpdate X a text)))).
Qed.

Lemma update_steps_run_each_once_witness :
  let a := changedFunc sample_app ".a" in
  exists order,
    order ≡ₚ updates a /\
    changedUpdate sample_X sample_app ".a"
    = run_updates sample_X (set_updates a []) order /\
    outputView (changedUpdate sample_X sample_app ".a")
    = default (outputView a)
        (last (omap (success_output sample_X (doc a)) order)).
Proof.
  intros a.
  refine (update_steps_run_each_once sample_X a
            (changedUpdate sample_X sample_app ".a") _ eq_refl).
  apply rtc_once. exact (update_run sample_X a 0 ".a" eq_refl eq_refl).
Defined.

(** ** Prefixes and the cache *)

Lemma LastIndexByte_None s c :
  LastIndexByte s c = None <-> has_byte s c = false.
Proof.
  induction s as [|b s IH]; simpl; [done|].
  destruct (LastIndexByte s c) as [i|].
  - split; [done|]. intros [_ H]%orb_false_iff. by apply IH in H.
  - destruct (decide (b = c)) as [->|Hne].
    + rewrite bool_decide_eq_true_2 by done. done.
    + rewrite bool_decide_eq_false_2 by done. simpl.
      split; [intros _; by apply IH | done].
Qed.

Lemma substring_0_app s t :
  String.substring 0 (String.length s) (s +:+ t) = s.
Proof.
  induction s as [|b s IH].
  - change (String.substring 0 0 t = ""). by destruct t.
  - rewrite string_app_cons. simpl. by rewrite IH.
Qed.

Lemma LastIndexByte_app_last p c k :
  has_byte k c = false ->
  LastIndexByte (p +:+ String c k) c = Some (String.length p).
Proof.
  intros Hk. induction p as [|b p IH].
  - change (LastIndexByte (String c k) c = Some 0%nat). simpl.
    apply LastIndexByte_None in Hk. rewrite Hk.
    by rewrite decide_True.
  - rewrite string_app_cons. simpl. by rewrite IH.
Qed.

Lemma prefix_of_candidate p k :
  has_byte k "." = false -> prefix_of (p +:+ "." +:+ k) = Some p.
Proof.
  intros Hk. unfold prefix_of.
  change (p +:+ "." +:+ k) with (p +:+ String "."%char k).
  rewrite (LastIndexByte_app_last p "." k Hk). simpl.
  by rewrite substring_0_app.
Qed.

Lemma LastIndexByte_split s c pos :
  LastIndexByte s c = Some pos ->
  exists k, s = String.substring 0 pos s +:+ String c k
            /\ has_byte k c = false.
Proof.
  revert pos. induction s as [|b s IH]; intros pos; simpl; [done|].
  destruct (LastIndexByte s c) as [i|] eqn:Hl.
  - intros [= <-]. destruct (IH i eq_refl) as (k & Hs & Hk).
    exists k. split; [|done]. simpl. rewrite string_app_cons. by f_equal.
  - destruct (decide (b = c)) as [->|]; [|done]. intros [= <-].
    exists s. split; [done|]. by apply LastIndexByte_None.
Qed.

(** X19: the cache key of a text is what stands before its last ['.']:
    a text has the prefix [p] exactly when it is [p], a ['.'] and a rest
    without ['.']; a text without ['.'] has no prefix. *)
Theorem prefix_of_spec (text p : string) :
  (prefix_of text = Some p <->
   exists k, text = p +:+ "." +:+ k /\ has_byte k "." = false) /\
  (prefix_of text = None <-> has_byte text "." = false).
Proof.
  split.
  - split.
    + unfold prefix_of.
      destruct (LastIndexByte text ".") as [pos|] eqn:Hl; [|done].
      intros [= <-]. by apply LastIndexByte_split.
    + intros (k & -> & Hk). by apply prefix_of_candidate.
  - unfold prefix_of. rewrite <- LastIndexByte_None.
    by destruct (LastIndexByte text ".").
Qed.

(** X20: a candidate built by a fetch leads back to its cache entry: once
    the fetch for a prefix has stored its list, a request for the text
    [prefix.key], for a key without ['.'], is answered with that list. *)
Theorem candidate_served_from_cache X a prefix out keys key :
  Filter X (fetch_doc a) (keysFilter prefix) = (out, None) ->
  Unmarshal X out = Some keys ->
  has_byte key "." = false ->
  let text := prefix +:+ "." +:+ key in
  let a1 := set_filterText (fetch X a prefix) text in
  autocompleteFunc a1 text
  = (a1, (fun k => prefix +:+ "." +:+ k) <$> keys).
Proof.
  intros Hf Hu Hk text a1.
  apply (autocompleteFunc_cached a1 text prefix); [done| |].
  - by apply prefix_of_candidate.
  - subst a1. cbn [filterMap set_filterText].
    rewrite (fetch_success X a prefix out keys Hf Hu).
    apply lookup_insert_eq.
Qed.

Lemma candidate_served_from_cache_witness :
  let a1 := set_filterText (fetch sample_X sample_app "") ".a" in
  autocompleteFunc a1 ".a" = (a1, [".a"; ".b"]).
Proof.
  intros a1.
  exact (candidate_served_from_cache sample_X sample_app ""
           sample_keys_output ["a"; "b"] "a" eq_refl eq_refl eq_refl).
Defined.

(** ** What the steps of a running application keep *)

Lemma Autocomplete_fields a :
  let a' := Autocomplete a in
  inputView a' = inputView a /\ startup a' = startup a /\
  stopped a' = stopped a /\ outputView a' = outputView a.
Proof.
  unfold Autocomplete, autocompleteFunc.
  destruct (_ && _); [done|].
  destruct (LastIndexByte _ _); [|done]. simpl.
  by destruct (filterMap a !! _).
Qed.

Lemma fetch_fields X a prefix :
  let a' := fetch X a prefix in
  inputView a' = inputView a /\ startup a' = startup a /\
  stopped a' = stopped a /\ outputView a' = outputView a.
Proof.
  unfold fetch. simpl.
  destruct (Filter X _ _) as [out [err|]]; [done|].
  destruct (Unmarshal X out) as [keys|]; [|done].
  exact (Autocomplete_fields (set_filterMap a _)).
Qed.

Lemma fetch_filterMap X a prefix :
  filterMap (fetch X a prefix) = filterMap a \/
  exists keys,
    filterMap (fetch X a prefix)
    = <[prefix := (fun k => prefix +:+ "." +:+ k) <$> keys]> (filterMap a).
Proof.
  unfold fetch. simpl.
  destruct (Filter X _ _) as [out [err|]]; [by left|].
  destruct (Unmarshal X out) as [keys|]; [|by left].
  right. exists keys. by rewrite Autocomplete_filterMap.
Qed.

(** A step leaves the cache as it was or stores one fetched list. *)
Lemma app_step_filterMap X w a w' a' :
  app_step X (w, a) (Alive (w', a')) ->
  filterMap a' = filterMap a \/
  exists prefix keys,
    filterMap a'
    = <[prefix := (fun k => prefix +:+ "." +:+ k) <$> keys]> (filterMap a).
Proof.
  inversion 1 as [ | | ? ? key | ? ? filter Hs Heq | ? ? ? Hu
                 | ? ? i prefix ]; subst.
  - by left.
  - left. apply Autocomplete_filterMap.
  - left. unfold doneFunc in *. destruct key; simplify_eq; try done.
    destruct (_ && _); by simplify_eq.
  - left. unfold startupFilter in *.
    destruct (Filter X (doc (set_startup a None)) ".") as [orig [err|]];
      [done|].
    destruct (Filter X (doc (set_startup a None)) filter) as [out [err|]];
      by simplify_eq.
  - left. inversion Hu; subst.
    apply (changedUpdate_frame X (set_updates a _) text).
  - destruct (fetch_filterMap X (set_fetches a (delete i (fetches a))) prefix)
      as [Hm|[keys Hm]]; [by left|]. right. by exists prefix, keys.
Qed.

Lemma cache_built_insert m prefix keys :
  cache_built m ->
  cache_built (<[prefix := (fun k => prefix +:+ "." +:+ k) <$> keys]> m).
Proof.
  intros Hm p es. rewrite lookup_insert.
  destruct (decide (prefix = p)) as [->|Hne]; [|apply Hm].
  intros [= <-]. apply Forall_fmap, Forall_forall. intros k _. by exists k.
Qed.

(** X21: in every state a run reaches from [createApp], each list in the
    cache holds only candidates of the form prefix, ['.'], key for the
    prefix it is stored under; and a prefix that is in the cache stays in
    it, for no step takes an entry out. *)
Theorem cache_stays_built X s s' :
  rtc (alive_step X) s s' ->
  (cache_built (filterMap s.2) -> cache_built (filterMap s'.2)) /\
  (forall prefix, is_Some (filterMap s.2 !! prefix) ->
                  is_Some (filterMap s'.2 !! prefix)).
Proof.
  induction 1 as [s|[w a] [w1 a1] s' Hstep Hrest [IH1 IH2]]; [done|].
  destruct (app_step_filterMap X w a w1 a1 Hstep) as [Hm|(p & keys & Hm)];
    simpl in *; rewrite Hm in *.
  - done.
  - split.
    + intros Hb. by apply IH1, cache_built_insert.
    + intros q Hq. apply IH2. rewrite lookup_insert.
      by destruct (decide (p = q)).
Qed.

Lemma cache_stays_built_witness :
  cache_built (filterMap (fetch sample_X sample_app "")).
Proof.
  refine (proj1 (cache_stays_built sample_X
                   (sample_OS, set_fetches sample_app [""])
                   (sample_OS, fetch sample_X sample_app "") _) _).
  - apply rtc_once.
    exact (step_fetch sample_X sample_OS (set_fetches sample_app [""]) 0 ""
             eq_refl eq_refl).
  - intros p es Hp. vm_compute in Hp. discriminate.
Defined.

(** A step that changes the operating system is the commit: it stops the
    application, and it changes no file but the history file. *)
Lemma app_step_OS X w a w' a' :
  app_step X (w, a) (Alive (w', a')) ->
  (w' = w \/ (stopped a = false /\ stopped a' = true)) /\
  stdin w' = stdin w /\
  (forall p, p <> historyFile (options (doc a)) ->
             files w' !! p = files w !! p).
Proof.
  inversion 1 as [ | | ? ? key Hrun | ? ? filter Hs Heq | | ]; subst;
    try (split; [by left | done]).
  - unfold doneFunc in *. destruct key; simplify_eq;
      try (split; [by left | done]).
    cbn [Stop doc filterText history outputView] in *.
    destruct (_ && _); simplify_eq.
    + split; [by right|]. unfold appendToFile.
      destruct (decide (_ = "")); [done|].
      destruct (decide (_ ∈ _)); [done|]. cbn.
      split; [done|]. intros p Hp. by rewrite lookup_insert_ne.
    + split; [by right | done].
  - destruct (startupFilter X (set_startup a None) filter); simplify_eq.
    split; [by left | done].
Qed.

(** X22: a running application writes to no file but its history file
    and never reads standard input: whatever steps are taken, every other
    path holds afterwards what it held before. *)
Theorem running_app_touches_only_history X s s' :
  rtc (alive_step X) s s' ->
  stdin s'.1 = stdin s.1 /\
  (forall p, p <> historyFile (options (doc s.2)) ->
             files s'.1 !! p = files s.1 !! p).
Proof.
  induction 1 as [s|[w a] [w1 a1] s' Hstep Hrest [IH1 IH2]]; [done|].
  destruct (app_step_OS X w a w1 a1 Hstep) as (_ & Hin & Hf).
  destruct (app_step_frame X w a w1 a1 Hstep) as [_ Hd].
  simpl in *. rewrite Hd in IH2. split; [congruence|].
  intros p Hp. rewrite IH2 by done. by apply Hf.
Qed.

Lemma running_app_touches_only_history_witness :
  let w := mkOS {[ "doc.json" := sample_input ]} ∅ Terminal "" "" in
  let s' := doneFunc sample_X w (set_filterText sample_app ".a") KeyEnter in
  stdin s'.1 = Terminal /\
  (forall p, p <> historyFile sample_options ->
             files s'.1 !! p = files w !! p).
Proof.
  intros w s'.
  refine (running_app_touches_only_history sample_X
            (w, set_filterText sample_app ".a") s' _).
  apply rtc_once.
  exact (step_done sample_X w (set_filterText sample_app ".a") KeyEnter
           eq_refl).
Defined.

Lemma app_step_views X w a w' a' :
  app_step X (w, a) (Alive (w', a')) ->
  startup a = None ->
  startup a' = None /\ inputView a' = inputView a.
Proof.
  inversion 1 as [ | | ? ? key Hrun | ? ? filter Hs Heq | ? ? ? Hu
                 | ? ? i prefix ]; subst; intros Hnone.
  - done.
  - destruct (Autocomplete_fields a) as (-> & -> & _). done.
  - unfold doneFunc in *. destruct key; simplify_eq; try done.
    destruct (_ && _); by simplify_eq.
  - congruence.
  - inversion Hu; subst. unfold changedUpdate. simpl.
    by destruct (Filter X _ _) as [out [[e|m]|]].
  - destruct (fetch_fields X (set_fetches a (delete i (fetches a))) prefix)
      as (-> & -> & _). done.
Qed.

(** X23: the input view is written by the startup goroutine only: once
    that goroutine has run, no edit, update, completion, fetch or commit
    changes the input view, and the goroutine does not run again. *)
Theorem input_view_written_once X s s' :
  rtc (alive_step X) s s' ->
  startup s.2 = None ->
  startup s'.2 = None /\ inputView s'.2 = inputView s.2.
Proof.
  induction 1 as [s|[w a] [w1 a1] s' Hstep Hrest IH]; [done|].
  intros Hnone.
  destruct (app_step_views X w a w1 a1 Hstep Hnone) as [Hs Hi].
  destruct (IH Hs) as [IH1 IH2]. simpl in *. split; congruence.
Qed.

Lemma input_view_written_once_witness :
  inputView (changedUpdate sample_X (set_updates (SetText sample_app ".a") [])
               ".a") = sample_input +:+ nl.
Proof.
  refine (proj2 (input_view_written_once sample_X
                   (sample_OS, sample_app)
                   (sample_OS, changedUpdate sample_X
                      (set_updates (SetText sample_app ".a") []) ".a") _
                   eq_refl)).
  eapply rtc_l; [exact (step_edit sample_X sample_OS sample_app ".a" eq_refl)|].
  apply rtc_once. apply step_update.
  exact (update_run sample_X (SetText sample_app ".a") 0 ".a" eq_refl eq_refl).
Defined.

(** X24: the document and the history list of a running application are
    the ones [createApp] was given and loaded: no sequence of steps
    changes either, so a filter committed or typed in this run never
    enters this run's history suggestions. *)
Theorem running_app_keeps_document X s s' :
  rtc (alive_step X) s s' ->
  doc s'.2 = doc s.2 /\ history s'.2 = history s.2.
Proof.
  induction 1 as [s|[w a] [w1 a1] s' Hstep Hrest [IH1 IH2]]; [done|].
  destruct (app_step_frame X w a w1 a1 Hstep) as [Hh Hd].
  simpl in *. split; congruence.
Qed.

Lemma running_app_keeps_document_witness :
  history (doneFunc sample_X sample_OS (set_filterText sample_app ".a")
             KeyEnter).2 = [].
Proof.
  refine (proj2 (running_app_keeps_document sample_X
                   (sample_OS, set_filterText sample_app ".a")
                   (doneFunc sample_X sample_OS
                      (set_filterText sample_app ".a") KeyEnter) _)).
  apply rtc_once.
  exact (step_done sample_X sample_OS (set_filterText sample_app ".a")
           KeyEnter eq_refl).
Defined.

(** ** Captured keys *)

(** X25: the key capture either consumes a key, or hands an event on and
    leaves the focus where it was.  An event handed on is the event that
    came in, or a plain Down or Up in place of Ctrl-N or Ctrl-P.  The
    capture never gives the focus to the error view. *)
Theorem inputCapture_consumes_or_passes (focus : Focus) (event : EventKey) :
  let r := inputCapture focus event in
  (r.2 = None \/ r.1 = focus) /\
  (forall e, r.2 = Some e ->
     e = event \/
     (EKey event = KeyCtrlN /\ e = NewEventKey KeyDown " " ModNone) \/
     (EKey event = KeyCtrlP /\ e = NewEventKey KeyUp " " ModNone)) /\
  (r.1 = OnErrorView -> focus = OnErrorView).
Proof.
  unfold inputCapture. destruct event as [k r m]. cbn [EKey Modifiers].
  destruct k, focus, (Z.land m ModShift =? 0); cbn;
    (split; [auto|split; [|done]]);
    intros e; intros [= <-]; auto.
Qed.



(** ** More on suggestions and the history *)

(** X27: when the fetch for the prefix of the field text has stored its
    list, the refresh it ends with opens exactly that list and starts no
    further fetch. *)
Theorem fetch_opens_its_list X a prefix out keys :
  prefix_of (filterText a) = Some prefix ->
  Filter X (fetch_doc a) (keysFilter prefix) = (out, None) ->
  Unmarshal X out = Some keys ->
  autocompleteList (fetch X a prefix)
  = (fun k => prefix +:+ "." +:+ k) <$> keys /\
  fetches (fetch X a prefix) = fetches a.
Proof.
  intros Hp Hf Hu. unfold fetch. cbn zeta. rewrite Hf, Hu.
  unfold Autocomplete.
  rewrite (autocompleteFunc_cached _ (filterText a) prefix
             ((fun k => prefix +:+ "." +:+ k) <$> keys)); try done.
  cbn [filterMap set_filterMap]. apply lookup_insert_eq.
Qed.

Lemma fetch_opens_its_list_witness :
  autocompleteList (fetch sample_X (set_filterText sample_app ".a") "")
  = [".a"; ".b"].
Proof.
  exact (proj1 (fetch_opens_its_list sample_X (set_filterText sample_app ".a")
                  "" sample_keys_output ["a"; "b"] eq_refl eq_refl eq_refl)).
Defined.

(** X28: requests are not coalesced: while the prefix of the field text is
    not in the cache, each completion request returns nothing and starts
    a fetch of its own, so two requests in a row leave two fetches for the
    same prefix running. *)
Theorem uncached_prefix_fetched_per_request a text prefix :
  filterText a = text ->
  prefix_of text = Some prefix ->
  filterMap a !! prefix = None ->
  let r1 := autocompleteFunc a text in
  let r2 := autocompleteFunc r1.1 text in
  r1.2 = [] /\ fetches r1.1 = fetches a ++ [prefix] /\
  r2.2 = [] /\ fetches r2.1 = fetches a ++ [prefix; prefix].
Proof.
  intros Ht Hp Hm r1 r2.
  destruct (autocompleteFunc_miss_twice a text prefix Ht Hp Hm)
    as (H1 & H2 & H3).
  split; [done|]. split; [|done].
  subst r1 r2. unfold prefix_of in Hp.
  destruct (LastIndexByte text ".") as [pos|] eqn:Hpos; [|done].
  injection Hp as Hp. unfold autocompleteFunc.
  rewrite Ht, Hpos, Hp, Hm.
  rewrite bool_decide_eq_false_2 by by eapply LastIndexByte_nonempty.
  done.
Qed.

Lemma uncached_prefix_fetched_per_request_witness :
  let a := set_filterText sample_app ".a" in
  fetches (autocompleteFunc (autocompleteFunc a ".a").1 ".a").1 = [""; ""].
Proof.
  intros a.
  exact (proj2 (proj2 (proj2
           (uncached_prefix_fetched_per_request a ".a" "" eq_refl eq_refl
              eq_refl)))).
Defined.

(** X29: one line of 65536 bytes or more in the history file loses the
    whole history for the run: the application starts with an empty
    history list, and the commit then appends every non-empty filter to
    the file, also one that is already a line of it. *)
Theorem long_line_loses_history X w d filter edits data :
  open_read w (historyFile (options d)) = Some data ->
  forallb fits (ScanLines data) = false ->
  historyFile (options d) ∉ unwritable w ->
  committed filter edits <> "" ->
  history (createApp w d filter) = [] /\
  files (commit_run X w d filter edits) !! historyFile (options d)
  = Some (data +:+ committed filter edits +:+ nl).
Proof.
  intros Ho Hlong Hw Hne.
  assert (Hh : history (createApp w d filter) = []).
  { unfold createApp, readFromFile. cbn [history]. by rewrite Ho, Hlong. }
  split; [done|].
  unfold commit_run, doneFunc.
  destruct (foldl_SetText (createApp w d filter) edits) as (Ht & Hi & Hd).
  cbn [Stop filterText history doc].
  rewrite Ht, Hi, Hd, Hh. cbn [createApp filterText doc contains].
  fold (committed filter edits).
  rewrite bool_decide_eq_false_2 by done. cbn [negb andb fst].
  unfold appendToFile. unfold open_read in Ho.
  destruct (decide (historyFile (options d) = "")); [done|].
  rewrite decide_False by done.
  cbn [fst files set_files print_stdout print_stderr].
  by rewrite lookup_insert_eq, Ho.
Qed.

Lemma long_line_loses_history_witness :
  let data := ".a" +:+ nl +:+ long_line +:+ nl in
  let w := mkOS {[ historyFile sample_options := data ]} ∅ Terminal "" "" in
  history (createApp w sample_doc ".a") = [] /\
  files (commit_run sample_X w sample_doc ".a" [])
    !! historyFile sample_options
  = Some (data +:+ ".a" +:+ nl).
Proof.
  intros data w.
  refine (long_line_loses_history sample_X w sample_doc ".a" [] data
            _ _ _ _).
  - apply lookup_singleton_eq.
  - vm_compute. reflexivity.
  - apply not_elem_of_empty.
  - done.
Defined.
